(** * sigma0: the Oh et al. (1992) bare-soil backscatter model

    A shallow embedding of [src/sigma0/oh_model.py] ([gammah], [gammav],
    [sigma0_bare]) and the properties its specification states.

    Numbers.  The Python code computes on IEEE doubles ([float],
    [np.float64]) and pairs of doubles ([complex], [np.complex128]).  The
    embedding computes on the real numbers those doubles stand for: a
    float is an [R], a complex is a pair of [R], and neither rounding nor
    overflow is modelled.  Every operation of the code that leaves the
    finite numbers in exact arithmetic (a division by zero, a power that
    is not a real number) returns [None]; once that happens the whole call
    counts as an arithmetic fault.  So [Some r] reads "in exact arithmetic
    the call evaluates to [r]" and [None] reads "an inf, a nan or an
    exception arises on the way".

    What is proved.  The double the code returns differs from the exact
    value by rounding, so the theorems stated of the code are of three
    kinds only: relations between the computed quantities, which hold
    step by step as the code computes them; invariances under changes of
    the input that are exact on doubles (the sign of the angle, the
    conjugate of a permittivity, the unused frequency); and values at
    arguments where every step is exact.  Lemmas about ranges and fault
    sets serve to show that the exact computation is defined where a
    theorem is applied. *)

From Stdlib Require Import Reals Lra Psatz.
From stdpp Require Import base option strings gmap.

Local Open Scope R_scope.

(** ** Complex numbers ([complex], [np.complex128]) *)

Module Cplx.

Record C : Type := mkC { Re : R; Im : R }.

Definition C0 : C := mkC 0 0.
Definition C1 : C := mkC 1 0.

(** A float operand of a mixed float/complex operation is promoted. *)
Definition RtoC (x : R) : C := mkC x 0.

Definition Cadd (z w : C) : C := mkC (Re z + Re w) (Im z + Im w).
Definition Csub (z w : C) : C := mkC (Re z - Re w) (Im z - Im w).
Definition Cmul (z w : C) : C :=
  mkC (Re z * Re w - Im z * Im w) (Re z * Im w + Im z * Re w).

(** [|z|^2], the quantity both [np.abs] and the division are built on. *)
Definition Cnorm2 (z : C) : R := Re z * Re z + Im z * Im z.

(** [np.abs] of a complex number. *)
Definition Cabs (z : C) : R := sqrt (Cnorm2 z).

Definition C_eq_dec (z w : C) : {z = w} + {z <> w}.
Proof.
  destruct z as [a b], w as [c d].
  destruct (Req_EM_T a c) as [->|Hac]; [|right; congruence].
  destruct (Req_EM_T b d) as [->|Hbd]; [left; reflexivity|right; congruence].
Defined.

(** Complex division.  A zero divisor gives inf/nan components under
    numpy and [ZeroDivisionError] under plain Python: a fault. *)
Definition Cdiv (z w : C) : option C :=
  if C_eq_dec w C0 then None
  else Some (mkC ((Re z * Re w + Im z * Im w) / Cnorm2 w)
                 ((Im z * Re w - Re z * Im w) / Cnorm2 w)).

(** [np.sqrt] of a complex number: the principal square root, whose real
    part is nonnegative and whose imaginary part has the sign of the
    argument's imaginary part. *)
Definition Csqrt (z : C) : C :=
  mkC (sqrt ((Cabs z + Re z) / 2))
      ((if Rlt_dec (Im z) 0 then -1 else 1) * sqrt ((Cabs z - Re z) / 2)).

End Cplx.
Import Cplx.

(** ** Float operations that can leave the finite numbers *)

(** [x / y] on floats: a zero divisor gives inf or nan. *)
Definition fdiv (x y : R) : option R :=
  if Req_EM_T y 0 then None else Some (x / y).

(** [np.sqrt] of a float: nan below zero. *)
Definition fsqrt (x : R) : option R :=
  if Rlt_dec x 0 then None else Some (sqrt x).

(** [x ** y] on floats, as C's [pow] computes it on finite arguments:
    [x ** 0] is 1; a positive base gives [exp (y * ln x)]; a zero base
    gives 0 for a positive exponent and inf for a negative one; a negative
    base has a real power only for an integer exponent (otherwise numpy
    returns nan and plain Python a complex number). *)
Definition fpow (x y : R) : option R :=
  if Req_EM_T y 0 then Some 1
  else if Rlt_dec 0 x then Some (Rpower x y)
  else if Req_EM_T x 0 then (if Rlt_dec 0 y then Some 0 else None)
  else if Req_EM_T (frac_part y) 0 then Some (powerRZ x (Int_part y))
  else None.

(** ** The reflectivities *)

(** [theta / 180.0 * cmath.pi] *)
Definition deg2rad (theta : R) : R := theta / 180 * PI.

Definition gammah (eps : C) (theta : R) : option R :=
  let theta_rad := theta / 180 * PI in
  let costheta := cos theta_rad in
  let neliojuuri := Csqrt (Csub eps (RtoC (sin theta_rad ^ 2))) in
  ratio ← Cdiv (Csub (RtoC costheta) neliojuuri)
               (Cadd (RtoC costheta) neliojuuri);
  Some (Cabs ratio ^ 2).

Definition gammav (eps : C) (theta : R) : option R :=
  let theta_rad := theta / 180 * PI in
  let costheta := cos theta_rad in
  let neliojuuri := Csqrt (Csub eps (RtoC (sin theta_rad ^ 2))) in
  ratio ← Cdiv (Csub (Cmul eps (RtoC costheta)) neliojuuri)
               (Cadd (Cmul eps (RtoC costheta)) neliojuuri);
  Some (Cabs ratio ^ 2).

(** ** The Oh model *)

(** The returned dict: keys are strings, values floats. *)
Definition sigma0_bare (theta : R) (eps_low : C) (f_rms f : R) (eps_top : C)
  : option (gmap string R) :=
  let k_rms := (2 * PI) * f_rms in
  eps_eff ← Cdiv eps_low eps_top;
  gam0 ← gammah eps_eff 0;
  gamh ← gammah eps_eff theta;
  gamv ← gammav eps_eff theta;
  let theta := theta / 180 * PI in
  let ct := cos theta in
  k18 ← fpow k_rms 1.8;
  let g := 0.7 * (1 - exp (- 0.65 * k18)) in
  expo ← fdiv 1 (3 * gam0);
  pw ← fpow (2 * theta / PI) expo;
  let root_p := 1 - pw * exp (- k_rms) in
  sq ← fsqrt gam0;
  let q := 0.23 * sq * (1 - exp (- k_rms)) in
  let sigma0 : gmap string R := ∅ in
  vv ← fdiv (g * (ct * (ct * ct)) * (gamv + gamh)) root_p;
  let sigma0 := <["vv" := vv]> sigma0 in
  vv1 ← sigma0 !! "vv";
  let sigma0 := <["vh" := q * vv1]> sigma0 in
  vv2 ← sigma0 !! "vv";
  let sigma0 := <["hh" := root_p * root_p * vv2]> sigma0 in
  Some sigma0.

(** [eps_top=1]: the call without the optional argument. *)
Definition sigma0_bare_default (theta : R) (eps_low : C) (f_rms f : R)
  : option (gmap string R) :=
  sigma0_bare theta eps_low f_rms f C1.

(** ** The formulas of the specification *)

(** [sqrt (eps - sin^2 theta)], the value the code calls [neliojuuri]. *)
Definition neliojuuri (eps : C) (theta : R) : C :=
  Csqrt (Csub eps (RtoC (sin (deg2rad theta) ^ 2))).

(** Numerator and denominator of the H-pol Fresnel coefficient. *)
Definition hnum (eps : C) (theta : R) : C :=
  Csub (RtoC (cos (deg2rad theta))) (neliojuuri eps theta).
Definition hden (eps : C) (theta : R) : C :=
  Cadd (RtoC (cos (deg2rad theta))) (neliojuuri eps theta).

(** Numerator and denominator of the V-pol Fresnel coefficient. *)
Definition vnum (eps : C) (theta : R) : C :=
  Csub (Cmul eps (RtoC (cos (deg2rad theta)))) (neliojuuri eps theta).
Definition vden (eps : C) (theta : R) : C :=
  Cadd (Cmul eps (RtoC (cos (deg2rad theta)))) (neliojuuri eps theta).

(** Section 4.1 of the specification: a quotient of two squared moduli. *)
Definition gammah_formula (eps : C) (theta : R) : option R :=
  fdiv (Cabs (hnum eps theta) ^ 2) (Cabs (hden eps theta) ^ 2).

(** Section 4.2 of the specification. *)
Definition gammav_formula (eps : C) (theta : R) : option R :=
  fdiv (Cabs (vnum eps theta) ^ 2) (Cabs (vden eps theta) ^ 2).

(** Step 7 of section 4.3: [1 - (2 theta / pi) ^ (1 / (3 gamma0)) * exp (- k_rms)],
    with [theta] in radians. *)
Definition root_p_formula (theta_rad gamma0 k_rms : R) : option R :=
  expo ← fdiv 1 (3 * gamma0);
  pw ← fpow (2 * theta_rad / PI) expo;
  Some (1 - pw * exp (- k_rms)).

(** Step 8 of section 4.3. *)
Definition q_formula (gamma0 k_rms : R) : R :=
  0.23 * sqrt gamma0 * (1 - exp (- k_rms)).

(** Step 6 of section 4.3. *)
Definition g_formula (k_rms : R) : option R :=
  k18 ← fpow k_rms 1.8;
  Some (0.7 * (1 - exp (- 0.65 * k18))).

(** The returned mapping, by its three entries. *)
Definition result_dict (vv vh hh : R) : gmap string R :=
  <["hh" := hh]> (<["vh" := vh]> (<["vv" := vv]> ∅)).

(** [z.conjugate()]: the other sign convention for the loss term of a
    permittivity. *)
Definition Cconj (z : C) : C := mkC (Re z) (- Im z).

(** ** Quotients of reals *)

Lemma Rdiv_le_one (a b : R) : 0 < b -> a <= b -> a / b <= 1.
Proof.
  intros Hb Hab. apply (Rmult_le_reg_r b); [exact Hb|].
  unfold Rdiv. rewrite Rmult_assoc, Rinv_l by lra. lra.
Qed.

Lemma Rdiv_nonneg (a b : R) : 0 <= a -> 0 < b -> 0 <= a / b.
Proof.
  intros Ha Hb. apply Rmult_le_pos; [exact Ha|].
  left; apply Rinv_0_lt_compat, Hb.
Qed.

(** ** Complex arithmetic *)

Section ComplexFacts.

Implicit Types z w : C.

Lemma C_ext z w : Re z = Re w -> Im z = Im w -> z = w.
Proof. destruct z, w; simpl; intros -> ->; reflexivity. Qed.

Lemma Cnorm2_nonneg z : 0 <= Cnorm2 z.
Proof. unfold Cnorm2; nra. Qed.

Lemma Cnorm2_zero z : Cnorm2 z = 0 <-> z = C0.
Proof.
  split.
  - unfold Cnorm2; intros H; apply C_ext; simpl; nra.
  - intros ->; unfold Cnorm2; simpl; lra.
Qed.

Lemma Cnorm2_pos z : z <> C0 -> 0 < Cnorm2 z.
Proof.
  intros Hz. destruct (Rle_lt_or_eq_dec _ _ (Cnorm2_nonneg z)) as [H|H]; [exact H|].
  exfalso; apply Hz, Cnorm2_zero; symmetry; exact H.
Qed.

Lemma Cabs_pow2 z : Cabs z ^ 2 = Cnorm2 z.
Proof. unfold Cabs; apply pow2_sqrt, Cnorm2_nonneg. Qed.

Lemma Cabs_nonneg z : 0 <= Cabs z.
Proof. apply sqrt_pos. Qed.

Lemma Cabs_ge_Re z : Rabs (Re z) <= Cabs z.
Proof.
  unfold Cabs. rewrite <- sqrt_Rsqr_abs.
  apply sqrt_le_1; unfold Rsqr, Cnorm2; nra.
Qed.

Lemma Cnorm2_mul z w : Cnorm2 (Cmul z w) = Cnorm2 z * Cnorm2 w.
Proof. unfold Cnorm2, Cmul; simpl; ring. Qed.

Lemma Cdiv_zero z : Cdiv z C0 = None.
Proof. unfold Cdiv; destruct (C_eq_dec C0 C0); congruence. Qed.

Lemma Cdiv_nonzero z w :
  w <> C0 ->
  exists q, Cdiv z w = Some q /\ Cmul q w = z /\ Cnorm2 q = Cnorm2 z / Cnorm2 w.
Proof.
  intros Hw. pose proof (Cnorm2_pos w Hw) as Hp.
  unfold Cdiv. destruct (C_eq_dec w C0) as [E|_]; [contradiction|].
  eexists; split; [reflexivity|]. split.
  - apply C_ext; unfold Cmul, Cnorm2 in *; simpl; field; lra.
  - unfold Cnorm2 in *; simpl; field; lra.
Qed.

Lemma Cdiv_one z : Cdiv z C1 = Some z.
Proof.
  unfold Cdiv. destruct (C_eq_dec C1 C0) as [E|_].
  - inversion E; lra.
  - f_equal; apply C_ext; unfold Cnorm2; simpl; field.
Qed.

(** The principal square root squares back to its argument... *)
Lemma Csqrt_sqr z : Cmul (Csqrt z) (Csqrt z) = z.
Proof.
  pose proof (Cabs_ge_Re z) as Hm.
  assert (Hp : 0 <= (Cabs z + Re z) / 2)
    by (destruct (Rcase_abs (Re z)); [rewrite Rabs_left in Hm|rewrite Rabs_right in Hm]; lra).
  assert (Hn : 0 <= (Cabs z - Re z) / 2)
    by (destruct (Rcase_abs (Re z)); [rewrite Rabs_left in Hm|rewrite Rabs_right in Hm]; lra).
  assert (Hx : sqrt ((Cabs z + Re z) / 2) * sqrt ((Cabs z + Re z) / 2)
               = (Cabs z + Re z) / 2) by (apply sqrt_sqrt; exact Hp).
  assert (Hy : sqrt ((Cabs z - Re z) / 2) * sqrt ((Cabs z - Re z) / 2)
               = (Cabs z - Re z) / 2) by (apply sqrt_sqrt; exact Hn).
  assert (Hxy : sqrt ((Cabs z + Re z) / 2) * sqrt ((Cabs z - Re z) / 2)
                = Rabs (Im z) / 2).
  { rewrite <- sqrt_mult by assumption.
    replace ((Cabs z + Re z) / 2 * ((Cabs z - Re z) / 2))
      with (Rsqr (Im z / 2)).
    - rewrite sqrt_Rsqr_abs. unfold Rdiv. rewrite Rabs_mult.
      rewrite (Rabs_right (/ 2)) by lra. reflexivity.
    - pose proof (Cabs_pow2 z) as H2. unfold Cnorm2 in H2. unfold Rsqr. nra. }
  apply C_ext; unfold Cmul, Csqrt; simpl.
  - destruct (Rlt_dec (Im z) 0); nra.
  - destruct (Rlt_dec (Im z) 0) as [Hi|Hi].
    + rewrite Rabs_left in Hxy by exact Hi. nra.
    + rewrite Rabs_right in Hxy by lra. nra.
Qed.

(** ... and lies in the closed right half plane. *)
Lemma Csqrt_Re_nonneg z : 0 <= Re (Csqrt z).
Proof. unfold Csqrt; simpl; apply sqrt_pos. Qed.

End ComplexFacts.

(** ** The reflectivities: where they are defined and what they return *)

Section Reflectivity.

Variables (eps : C) (theta : R).

Let c := cos (deg2rad theta).
Let s2 := sin (deg2rad theta) ^ 2.
Let x := Re (neliojuuri eps theta).
Let y := Im (neliojuuri eps theta).

Lemma sin2_cos2_pow : s2 + c ^ 2 = 1.
Proof.
  subst s2 c. pose proof (sin2_cos2 (deg2rad theta)) as H.
  unfold Rsqr in H. lra.
Qed.

Lemma s2_nonneg : 0 <= s2.
Proof. subst s2. nra. Qed.

(** The square root in coordinates: [eps - sin^2 = (x + i y)^2], [x >= 0]. *)
Lemma neliojuuri_coords :
  0 <= x /\ Re eps = x * x - y * y + s2 /\ Im eps = 2 * x * y.
Proof.
  subst x y s2. unfold neliojuuri.
  set (z := Csub eps (RtoC (sin (deg2rad theta) ^ 2))).
  pose proof (Csqrt_sqr z) as Hsq. pose proof (Csqrt_Re_nonneg z) as Hre.
  assert (Hz1 : Re z = Re eps - sin (deg2rad theta) ^ 2) by reflexivity.
  assert (Hz2 : Im z = Im eps - 0) by reflexivity.
  clearbody z. destruct (Csqrt z) as [a b].
  rewrite <- Hsq in Hz1, Hz2. unfold Cmul in Hz1, Hz2. cbn [Re Im] in *.
  repeat split; [exact Hre|lra|lra].
Qed.

Lemma gammah_unfold :
  gammah eps theta =
  (ratio ← Cdiv (hnum eps theta) (hden eps theta); Some (Cabs ratio ^ 2)).
Proof. reflexivity. Qed.

Lemma gammav_unfold :
  gammav eps theta =
  (ratio ← Cdiv (vnum eps theta) (vden eps theta); Some (Cabs ratio ^ 2)).
Proof. reflexivity. Qed.

Lemma Cnorm2_hnum : Cnorm2 (hnum eps theta) = (c - x) * (c - x) + y * y.
Proof. unfold Cnorm2, hnum, Csub, RtoC; cbn [Re Im]; subst c x y; ring. Qed.

Lemma Cnorm2_hden : Cnorm2 (hden eps theta) = (c + x) * (c + x) + y * y.
Proof. unfold Cnorm2, hden, Cadd, RtoC; cbn [Re Im]; subst c x y; ring. Qed.

Lemma Cnorm2_vnum :
  Cnorm2 (vnum eps theta) =
  (Re eps * c - x) * (Re eps * c - x) + (Im eps * c - y) * (Im eps * c - y).
Proof. unfold Cnorm2, vnum, Csub, Cmul, RtoC; cbn [Re Im]; subst c x y; ring. Qed.

Lemma Cnorm2_vden :
  Cnorm2 (vden eps theta) =
  (Re eps * c + x) * (Re eps * c + x) + (Im eps * c + y) * (Im eps * c + y).
Proof. unfold Cnorm2, vden, Cadd, Cmul, RtoC; cbn [Re Im]; subst c x y; ring. Qed.

(** A reflectivity is the quotient of the squared moduli whenever the
    denominator of the Fresnel coefficient is not zero, and a fault
    otherwise. *)
Lemma gammah_Some :
  hden eps theta <> C0 ->
  gammah eps theta = Some (Cnorm2 (hnum eps theta) / Cnorm2 (hden eps theta)).
Proof.
  intros Hd. rewrite gammah_unfold.
  destruct (Cdiv_nonzero (hnum eps theta) _ Hd) as (q & -> & _ & Hq).
  cbn [mbind option_bind]. rewrite Cabs_pow2, Hq. reflexivity.
Qed.

Lemma gammah_None : hden eps theta = C0 -> gammah eps theta = None.
Proof. intros Hd. rewrite gammah_unfold, Hd, Cdiv_zero. reflexivity. Qed.

Lemma gammav_Some :
  vden eps theta <> C0 ->
  gammav eps theta = Some (Cnorm2 (vnum eps theta) / Cnorm2 (vden eps theta)).
Proof.
  intros Hd. rewrite gammav_unfold.
  destruct (Cdiv_nonzero (vnum eps theta) _ Hd) as (q & -> & _ & Hq).
  cbn [mbind option_bind]. rewrite Cabs_pow2, Hq. reflexivity.
Qed.

Lemma gammav_None : vden eps theta = C0 -> gammav eps theta = None.
Proof. intros Hd. rewrite gammav_unfold, Hd, Cdiv_zero. reflexivity. Qed.

Lemma gammah_nonneg r : gammah eps theta = Some r -> 0 <= r.
Proof.
  destruct (C_eq_dec (hden eps theta) C0) as [Hd|Hd].
  - rewrite (gammah_None Hd). discriminate.
  - rewrite (gammah_Some Hd). intros [= <-].
    apply Rdiv_nonneg; [apply Cnorm2_nonneg|apply Cnorm2_pos, Hd].
Qed.

Lemma gammav_nonneg r : gammav eps theta = Some r -> 0 <= r.
Proof.
  destruct (C_eq_dec (vden eps theta) C0) as [Hd|Hd].
  - rewrite (gammav_None Hd). discriminate.
  - rewrite (gammav_Some Hd). intros [= <-].
    apply Rdiv_nonneg; [apply Cnorm2_nonneg|apply Cnorm2_pos, Hd].
Qed.

(** Where the cosine is positive the H-pol denominator cannot vanish. *)
Lemma hden_nonzero : 0 < c -> hden eps theta <> C0.
Proof.
  intros Hc Hd. destruct neliojuuri_coords as (Hx & _ & _).
  assert (H : Re (hden eps theta) = 0) by (rewrite Hd; reflexivity).
  unfold hden, Cadd, RtoC in H; cbn [Re Im] in H. subst c x. lra.
Qed.

(** The V-pol denominator vanishes there only for [eps = 0] at an angle
    whose sine is zero. *)
Lemma vden_zero_inv : 0 < c -> vden eps theta = C0 -> eps = C0 /\ s2 = 0.
Proof.
  intros Hc Hd. destruct neliojuuri_coords as (Hx & Hre & Him).
  pose proof s2_nonneg as Hs.
  assert (H1 : Re (vden eps theta) = 0) by (rewrite Hd; reflexivity).
  assert (H2 : Im (vden eps theta) = 0) by (rewrite Hd; reflexivity).
  unfold vden, Cadd, Cmul, RtoC in H1, H2; cbn [Re Im] in H1, H2.
  fold c x in H1. fold c y in H2.
  assert (Hy : y = 0).
  { assert (Hf : y * (2 * x * c + 1) = 0) by (rewrite Him in H2; lra).
    apply Rmult_integral in Hf. destruct Hf as [Hf|Hf]; [exact Hf|nra]. }
  assert (Hx0 : x = 0).
  { rewrite Hre, Hy in H1. nra. }
  assert (Hs0 : s2 = 0).
  { rewrite Hre, Hy, Hx0 in H1. nra. }
  split; [|exact Hs0].
  apply C_ext; simpl; [rewrite Hre|rewrite Him]; rewrite ?Hx0, ?Hy, ?Hs0; ring.
Qed.

Lemma vden_nonzero : 0 < c -> eps <> C0 \/ s2 <> 0 -> vden eps theta <> C0.
Proof.
  intros Hc Hor Hd. destruct (vden_zero_inv Hc Hd) as [He Hs].
  destruct Hor; contradiction.
Qed.

(** Range of the power reflectivities for a positive cosine. *)
Lemma gammah_range :
  0 < c -> exists r, gammah eps theta = Some r /\ 0 <= r <= 1.
Proof.
  intros Hc. pose proof (hden_nonzero Hc) as Hd.
  eexists; split; [apply gammah_Some, Hd|].
  pose proof (Cnorm2_pos _ Hd) as Hp. pose proof (Cnorm2_nonneg (hnum eps theta)) as Hn.
  destruct neliojuuri_coords as (Hx & _ & _).
  split.
  - apply Rdiv_nonneg; assumption.
  - apply Rdiv_le_one; [exact Hp|].
    rewrite Cnorm2_hnum, Cnorm2_hden. nra.
Qed.

Lemma gammav_range :
  0 < c -> eps <> C0 \/ s2 <> 0 ->
  exists r, gammav eps theta = Some r /\ 0 <= r <= 1.
Proof.
  intros Hc Hor. pose proof (vden_nonzero Hc Hor) as Hd.
  eexists; split; [apply gammav_Some, Hd|].
  pose proof (Cnorm2_pos _ Hd) as Hp. pose proof (Cnorm2_nonneg (vnum eps theta)) as Hn.
  destruct neliojuuri_coords as (Hx & Hre & Him).
  pose proof s2_nonneg as Hs.
  split.
  - apply Rdiv_nonneg; assumption.
  - apply Rdiv_le_one; [exact Hp|].
    rewrite Cnorm2_vnum, Cnorm2_vden.
    assert (Hk : 0 <= c * (x * (x * x + y * y + s2))).
    { apply Rmult_le_pos; [lra|]. apply Rmult_le_pos; [exact Hx|nra]. }
    rewrite Hre, Him. nra.
Qed.

End Reflectivity.

(** ** Special arguments *)

Lemma deg2rad_0 : deg2rad 0 = 0.
Proof. unfold deg2rad; lra. Qed.

Lemma deg2rad_180 : deg2rad 180 = PI.
Proof. unfold deg2rad; lra. Qed.

(** The principal root of a nonnegative real is the real root. *)
Lemma Csqrt_real (z : C) :
  Im z = 0 -> 0 <= Re z -> Csqrt z = mkC (sqrt (Re z)) 0.
Proof.
  intros Hi Hr.
  assert (Ha : Cabs z = Re z).
  { unfold Cabs, Cnorm2. rewrite Hi, Rmult_0_l, Rplus_0_r. apply sqrt_square, Hr. }
  unfold Csqrt. rewrite Ha. apply C_ext; cbn [Re Im].
  - f_equal; lra.
  - replace ((Re z - Re z) / 2) with 0 by lra. rewrite sqrt_0. ring.
Qed.

Lemma sqrt_4 : sqrt 4 = 2.
Proof. apply sqrt_lem_1; lra. Qed.

Lemma neliojuuri_C1 (theta : R) :
  neliojuuri C1 theta = mkC (Rabs (cos (deg2rad theta))) 0.
Proof.
  unfold neliojuuri. rewrite Csqrt_real; cbn [Re Im C1 Csub RtoC].
  - f_equal. rewrite <- sqrt_Rsqr_abs. f_equal.
    pose proof (sin2_cos2 (deg2rad theta)) as H. unfold Rsqr in *. lra.
  - lra.
  - pose proof (sin2_cos2 (deg2rad theta)) as H. unfold Rsqr in *. nra.
Qed.

(** The H-pol denominator vanishes exactly for [eps = 1] at an angle whose
    cosine is not positive. *)
Lemma hden_zero_iff (eps : C) (theta : R) :
  hden eps theta = C0 <-> eps = C1 /\ cos (deg2rad theta) <= 0.
Proof.
  split.
  - intros Hd. destruct (neliojuuri_coords eps theta) as (Hx & Hre & Him).
    pose proof (sin2_cos2_pow theta) as Hsc.
    assert (H1 : Re (hden eps theta) = 0) by (rewrite Hd; reflexivity).
    assert (H2 : Im (hden eps theta) = 0) by (rewrite Hd; reflexivity).
    unfold hden, Cadd, RtoC in H1, H2; cbn [Re Im] in H1, H2.
    split; [|lra].
    apply C_ext; cbn [Re Im C1]; [rewrite Hre|rewrite Him]; nra.
  - intros [-> Hc]. unfold hden. rewrite neliojuuri_C1.
    apply C_ext; cbn [Re Im Cadd RtoC C0]; [|lra].
    rewrite Rabs_left1 by exact Hc. lra.
Qed.

Lemma gammah_C1_180 : gammah C1 180 = None.
Proof.
  apply gammah_None, hden_zero_iff. split; [reflexivity|].
  rewrite deg2rad_180, cos_PI. lra.
Qed.

Lemma neliojuuri_4_180 : neliojuuri (mkC 4 0) 180 = mkC 2 0.
Proof.
  unfold neliojuuri. rewrite deg2rad_180, sin_PI.
  rewrite Csqrt_real; cbn [Re Im Csub RtoC]; [|lra|lra].
  replace (4 - 0 ^ 2) with 4 by lra. rewrite sqrt_4. reflexivity.
Qed.

Lemma gammah_4_180 : gammah (mkC 4 0) 180 = Some 9.
Proof.
  assert (Hd : hden (mkC 4 0) 180 = mkC 1 0).
  { unfold hden. rewrite neliojuuri_4_180, deg2rad_180, cos_PI.
    apply C_ext; cbn [Re Im Cadd RtoC]; lra. }
  assert (Hn : hnum (mkC 4 0) 180 = mkC (-3) 0).
  { unfold hnum. rewrite neliojuuri_4_180, deg2rad_180, cos_PI.
    apply C_ext; cbn [Re Im Csub RtoC]; lra. }
  rewrite gammah_Some; rewrite Hd, ?Hn.
  - f_equal. unfold Cnorm2; cbn [Re Im]. lra.
  - intros E; inversion E; lra.
Qed.

Lemma gammav_4_180 : gammav (mkC 4 0) 180 = Some 9.
Proof.
  assert (Hd : vden (mkC 4 0) 180 = mkC (-2) 0).
  { unfold vden. rewrite neliojuuri_4_180, deg2rad_180, cos_PI.
    apply C_ext; cbn [Re Im Cadd Cmul RtoC]; lra. }
  assert (Hn : vnum (mkC 4 0) 180 = mkC (-6) 0).
  { unfold vnum. rewrite neliojuuri_4_180, deg2rad_180, cos_PI.
    apply C_ext; cbn [Re Im Csub Cmul RtoC]; lra. }
  rewrite gammav_Some; rewrite Hd, ?Hn.
  - f_equal. unfold Cnorm2; cbn [Re Im]. lra.
  - intros E; inversion E; lra.
Qed.

Lemma neliojuuri_C0_0 : neliojuuri C0 0 = C0.
Proof.
  unfold neliojuuri. rewrite deg2rad_0, sin_0.
  rewrite Csqrt_real; cbn [Re Im Csub RtoC C0]; [|lra|lra].
  replace (0 - 0 ^ 2) with 0 by lra. rewrite sqrt_0. reflexivity.
Qed.

Lemma gammah_C0_0 : gammah C0 0 = Some 1.
Proof.
  assert (Hd : hden C0 0 = mkC 1 0).
  { unfold hden. rewrite neliojuuri_C0_0, deg2rad_0, cos_0.
    apply C_ext; cbn [Re Im Cadd RtoC C0]; lra. }
  assert (Hn : hnum C0 0 = mkC 1 0).
  { unfold hnum. rewrite neliojuuri_C0_0, deg2rad_0, cos_0.
    apply C_ext; cbn [Re Im Csub RtoC C0]; lra. }
  rewrite gammah_Some; rewrite Hd, ?Hn.
  - f_equal. unfold Cnorm2; cbn [Re Im]. lra.
  - intros E; inversion E; lra.
Qed.

Lemma gammav_C0_0 : gammav C0 0 = None.
Proof.
  apply gammav_None. unfold vden. rewrite neliojuuri_C0_0.
  apply C_ext; cbn [Re Im Cadd Cmul RtoC C0]; lra.
Qed.

(** ** Modulus of the quotient, quotient of the moduli *)

(** The code takes the modulus of the quotient, the specification the
    quotient of the moduli: in exact arithmetic the same partial
    function. *)
Lemma gammah_eq_formula (eps : C) (theta : R) :
  gammah eps theta = gammah_formula eps theta.
Proof.
  unfold gammah_formula, fdiv. rewrite !Cabs_pow2.
  destruct (Req_EM_T (Cnorm2 (hden eps theta)) 0) as [E|E].
  - apply gammah_None, Cnorm2_zero, E.
  - apply gammah_Some. intros Hd. apply E, Cnorm2_zero, Hd.
Qed.

(** ** Matched media *)

(** C4 (as amended).  Across matched media ([eps = 1+0j]) both
    reflectivities are 0 at normal incidence.  There every step is exact:
    the cosine is 1, the sine 0, the root 1 and the numerator 0. *)
Theorem matched_media_normal_incidence :
  gammah C1 0 = Some 0 /\ gammav C1 0 = Some 0.
Proof.
  assert (Hc : 0 < cos (deg2rad 0)) by (rewrite deg2rad_0, cos_0; lra).
  assert (Hw : neliojuuri C1 0 = mkC (cos (deg2rad 0)) 0).
  { rewrite neliojuuri_C1, Rabs_right by lra. reflexivity. }
  split.
  - rewrite (gammah_Some _ _ (hden_nonzero C1 0 Hc)). f_equal.
    replace (hnum C1 0) with C0.
    + unfold Cnorm2 at 1; cbn [Re Im C0]. unfold Rdiv. ring.
    + unfold hnum. rewrite Hw. apply C_ext; cbn [Re Im Csub RtoC C0]; lra.
  - assert (Hd : vden C1 0 <> C0).
    { apply vden_nonzero; [exact Hc|]. left. intros E. inversion E. lra. }
    rewrite (gammav_Some _ _ Hd). f_equal.
    replace (vnum C1 0) with C0.
    + unfold Cnorm2 at 1; cbn [Re Im C0]. unfold Rdiv. ring.
    + unfold vnum. rewrite Hw.
      apply C_ext; cbn [Re Im Csub Cmul RtoC C0 C1]; lra.
Qed.

(** C4, as stated, fails at 180 degrees, where the H-pol division is by
    zero. *)
Lemma matched_media_fails_180 :
  ~ (gammah C1 180 = Some 0 /\ gammav C1 180 = Some 0).
Proof. rewrite gammah_C1_180. intros [H _]. discriminate H. Qed.

(** ** The Oh model, step by step *)

Lemma fsqrt_nonneg (x : R) : 0 <= x -> fsqrt x = Some (sqrt x).
Proof. intros H. unfold fsqrt. destruct (Rlt_dec x 0); [lra|reflexivity]. Qed.

(** [sigma0_bare] as the chain of the specification's steps: the two
    reads of [sigma0['vv']] find the value just stored, and the square
    root of [gam0] never faults because a reflectivity is not negative. *)
Lemma sigma0_bare_unfold (theta : R) (eps_low : C) (f_rms f : R) (eps_top : C) :
  sigma0_bare theta eps_low f_rms f eps_top =
  (eps_eff ← Cdiv eps_low eps_top;
   gam0 ← gammah eps_eff 0;
   gamh ← gammah eps_eff theta;
   gamv ← gammav eps_eff theta;
   g ← g_formula (2 * PI * f_rms);
   root_p ← root_p_formula (deg2rad theta) gam0 (2 * PI * f_rms);
   vv ← fdiv (g * (cos (deg2rad theta) *
                   (cos (deg2rad theta) * cos (deg2rad theta))) *
              (gamv + gamh)) root_p;
   Some (result_dict vv (q_formula gam0 (2 * PI * f_rms) * vv)
                     (root_p * root_p * vv))).
Proof.
  unfold sigma0_bare, g_formula, root_p_formula, result_dict, q_formula.
  fold (deg2rad theta).
  destruct (Cdiv eps_low eps_top) as [eps_eff|]; [|reflexivity].
  cbn [mbind option_bind].
  destruct (gammah eps_eff 0) as [gam0|] eqn:H0; [|reflexivity].
  cbn [mbind option_bind].
  destruct (gammah eps_eff theta) as [gamh|]; [|reflexivity].
  cbn [mbind option_bind].
  destruct (gammav eps_eff theta) as [gamv|]; [|reflexivity].
  cbn [mbind option_bind].
  destruct (fpow (2 * PI * f_rms) 1.8) as [k18|]; [|reflexivity].
  cbn [mbind option_bind].
  destruct (fdiv 1 (3 * gam0)) as [expo|]; [|reflexivity].
  cbn [mbind option_bind].
  destruct (fpow (2 * deg2rad theta / PI) expo) as [pw|]; [|reflexivity].
  cbn [mbind option_bind].
  rewrite (fsqrt_nonneg gam0 (gammah_nonneg _ _ _ H0)).
  cbn [mbind option_bind].
  destruct (fdiv _ (1 - pw * exp (- (2 * PI * f_rms)))) as [vv|]; [|reflexivity].
  cbn [mbind option_bind].
  rewrite lookup_insert_eq. cbn [mbind option_bind].
  rewrite lookup_insert_ne by discriminate.
  rewrite lookup_insert_eq. cbn [mbind option_bind].
  reflexivity.
Qed.

Lemma sigma0_bare_inv (theta : R) (eps_low : C) (f_rms f : R) (eps_top : C)
    (d : gmap string R) :
  sigma0_bare theta eps_low f_rms f eps_top = Some d ->
  exists (eps_eff : C) (gam0 gamh gamv g root_p vv : R),
    Cdiv eps_low eps_top = Some eps_eff /\
    gammah eps_eff 0 = Some gam0 /\
    gammah eps_eff theta = Some gamh /\
    gammav eps_eff theta = Some gamv /\
    g_formula (2 * PI * f_rms) = Some g /\
    root_p_formula (deg2rad theta) gam0 (2 * PI * f_rms) = Some root_p /\
    fdiv (g * (cos (deg2rad theta) *
               (cos (deg2rad theta) * cos (deg2rad theta))) *
          (gamv + gamh)) root_p = Some vv /\
    d = result_dict vv (q_formula gam0 (2 * PI * f_rms) * vv)
                    (root_p * root_p * vv).
Proof.
  rewrite sigma0_bare_unfold. intros H.
  destruct (Cdiv eps_low eps_top) as [eps_eff|] eqn:He; [|discriminate H].
  cbn [mbind option_bind] in H.
  destruct (gammah eps_eff 0) as [gam0|] eqn:H0; [|discriminate H].
  cbn [mbind option_bind] in H.
  destruct (gammah eps_eff theta) as [gamh|] eqn:Hh; [|discriminate H].
  cbn [mbind option_bind] in H.
  destruct (gammav eps_eff theta) as [gamv|] eqn:Hv; [|discriminate H].
  cbn [mbind option_bind] in H.
  destruct (g_formula (2 * PI * f_rms)) as [g|] eqn:Hg; [|discriminate H].
  cbn [mbind option_bind] in H.
  destruct (root_p_formula (deg2rad theta) gam0 (2 * PI * f_rms))
    as [root_p|] eqn:Hp; [|discriminate H].
  cbn [mbind option_bind] in H.
  destruct (fdiv _ root_p) as [vv|] eqn:Hvv; [|discriminate H].
  cbn [mbind option_bind] in H. injection H as <-.
  exists eps_eff, gam0, gamh, gamv, g, root_p, vv.
  repeat split; assumption || reflexivity.
Qed.

(** The three entries of the returned mapping. *)
Lemma result_dict_vv (vv vh hh : R) : result_dict vv vh hh !! "vv" = Some vv.
Proof.
  unfold result_dict.
  rewrite !lookup_insert_ne by discriminate. apply lookup_insert_eq.
Qed.

Lemma result_dict_vh (vv vh hh : R) : result_dict vv vh hh !! "vh" = Some vh.
Proof.
  unfold result_dict.
  rewrite lookup_insert_ne by discriminate. apply lookup_insert_eq.
Qed.

Lemma result_dict_hh (vv vh hh : R) : result_dict vv vh hh !! "hh" = Some hh.
Proof. unfold result_dict. apply lookup_insert_eq. Qed.

Lemma result_dict_dom (vv vh hh : R) :
  dom (result_dict vv vh hh) = ({["vv"; "vh"; "hh"]} : gset string).
Proof. unfold result_dict. rewrite !dom_insert_L, dom_empty_L. set_solver. Qed.

(** ** Arithmetic on the physical domain *)

Lemma fdiv_nonzero (x y : R) : y <> 0 -> fdiv x y = Some (x / y).
Proof. intros H. unfold fdiv. destruct (Req_EM_T y 0); [contradiction|reflexivity]. Qed.

Lemma exp_neg_unit (x : R) : 0 <= x -> 0 < exp (- x) <= 1.
Proof.
  intros Hx. split; [apply exp_pos|].
  destruct (Req_dec x 0) as [->|Hn].
  - rewrite Ropp_0, exp_0. lra.
  - left. rewrite <- exp_0. apply exp_increasing. lra.
Qed.

(** A base in [[0, 1)] raised to a positive exponent stays in [[0, 1)]. *)
Lemma fpow_unit_interval (b e : R) :
  0 <= b < 1 -> 0 < e -> exists p, fpow b e = Some p /\ 0 <= p < 1.
Proof.
  intros [Hb0 Hb1] He. unfold fpow.
  destruct (Req_EM_T e 0) as [E|_]; [lra|].
  destruct (Rlt_dec 0 b) as [Hb|Hb].
  - eexists; split; [reflexivity|]. unfold Rpower.
    split; [left; apply exp_pos|].
    rewrite <- exp_0. apply exp_increasing.
    assert (Hl : ln b < 0) by (rewrite <- ln_1; apply ln_increasing; lra).
    nra.
  - destruct (Req_EM_T b 0) as [_|Hn]; [|lra].
    destruct (Rlt_dec 0 e) as [_|Hn]; [|lra].
    eexists; split; [reflexivity|lra].
Qed.

(** A nonnegative base raised to a positive exponent is nonnegative, and
    zero for a zero base. *)
Lemma fpow_nonneg_base (k e : R) :
  0 <= k -> 0 < e ->
  exists p, fpow k e = Some p /\ 0 <= p /\ (k = 0 -> p = 0) /\ (0 < k -> 0 < p).
Proof.
  intros Hk He. unfold fpow.
  destruct (Req_EM_T e 0) as [E|_]; [lra|].
  destruct (Rlt_dec 0 k) as [Hp|Hp].
  - eexists; split; [reflexivity|]. unfold Rpower.
    pose proof (exp_pos (e * ln k)). repeat split; intros; lra.
  - destruct (Req_EM_T k 0) as [_|Hn]; [|lra].
    destruct (Rlt_dec 0 e) as [_|Hn]; [|lra].
    eexists; split; [reflexivity|]. repeat split; intros; lra.
Qed.

Lemma g_formula_nonneg (k : R) :
  0 <= k ->
  exists g, g_formula k = Some g /\ 0 <= g /\ (k = 0 -> g = 0) /\ (0 < k -> 0 < g).
Proof.
  intros Hk. unfold g_formula.
  destruct (fpow_nonneg_base k 1.8 Hk) as (p & -> & Hp & Hz & Hpos); [lra|].
  cbn [mbind option_bind]. eexists; split; [reflexivity|].
  repeat split.
  - pose proof (exp_neg_unit (0.65 * p)) as He.
    replace (- (0.65 * p)) with (- 0.65 * p) in He by lra. lra.
  - intros E. rewrite (Hz E), Rmult_0_r, exp_0. lra.
  - intros E. specialize (Hpos E).
    assert (exp (- 0.65 * p) < 1)
      by (rewrite <- exp_0; apply exp_increasing; lra).
    lra.
Qed.

Lemma root_p_unit_interval (theta_rad gam0 k : R) :
  0 <= 2 * theta_rad / PI < 1 -> 0 < gam0 -> 0 <= k ->
  exists root_p,
    root_p_formula theta_rad gam0 k = Some root_p /\ 0 < root_p <= 1.
Proof.
  intros Hb Hg Hk. unfold root_p_formula.
  rewrite fdiv_nonzero by lra. cbn [mbind option_bind].
  assert (He : 0 < 1 / (3 * gam0)).
  { apply Rdiv_lt_0_compat; lra. }
  destruct (fpow_unit_interval _ _ Hb He) as (p & -> & Hp).
  cbn [mbind option_bind]. eexists; split; [reflexivity|].
  pose proof (exp_neg_unit k Hk). nra.
Qed.

Lemma deg2rad_quadrant (theta : R) :
  0 <= theta < 90 ->
  0 <= deg2rad theta < PI / 2 /\ 0 <= 2 * deg2rad theta / PI < 1.
Proof.
  intros Ht. pose proof PI_RGT_0 as Hpi.
  assert (E : 2 * deg2rad theta / PI = theta / 90).
  { unfold deg2rad. field. lra. }
  rewrite E. unfold deg2rad. repeat split; try lra; nra.
Qed.

Lemma cos_deg2rad_pos (theta : R) : 0 <= theta < 90 -> 0 < cos (deg2rad theta).
Proof.
  intros Ht. destruct (deg2rad_quadrant theta Ht) as [[H0 H1] _].
  pose proof PI_RGT_0. apply cos_gt_0; lra.
Qed.

Lemma sin_deg2rad_nonzero (theta : R) :
  0 <= theta < 90 -> theta <> 0 -> sin (deg2rad theta) ^ 2 <> 0.
Proof.
  intros Ht Hn. destruct (deg2rad_quadrant theta Ht) as [[H0 H1] _].
  pose proof PI_RGT_0 as Hpi.
  assert (Hp : 0 < deg2rad theta).
  { unfold deg2rad in *. destruct H0 as [H0|H0]; [exact H0|].
    exfalso. apply Hn. symmetry in H0.
    apply Rmult_integral in H0. destruct H0; lra. }
  assert (Hs : 0 < sin (deg2rad theta)) by (apply sin_gt_0; lra).
  nra.
Qed.

(** The normal-incidence reflectivity is positive away from [eps = 1]. *)
Lemma gammah_0_pos (eps : C) :
  eps <> C1 -> exists gam0, gammah eps 0 = Some gam0 /\ 0 < gam0.
Proof.
  intros He.
  assert (Hc : 0 < cos (deg2rad 0)) by (rewrite deg2rad_0, cos_0; lra).
  pose proof (hden_nonzero eps 0 Hc) as Hd.
  eexists; split; [apply gammah_Some, Hd|].
  apply Rdiv_lt_0_compat; [|apply Cnorm2_pos, Hd].
  apply Cnorm2_pos. intros Hn. apply He.
  destruct (neliojuuri_coords eps 0) as (Hx & Hre & Him).
  assert (H1 : Re (hnum eps 0) = 0) by (rewrite Hn; reflexivity).
  assert (H2 : Im (hnum eps 0) = 0) by (rewrite Hn; reflexivity).
  unfold hnum, Csub, RtoC in H1, H2; cbn [Re Im] in H1, H2.
  rewrite deg2rad_0, ?cos_0, ?sin_0 in *.
  apply C_ext; cbn [Re Im C1]; [rewrite Hre|rewrite Him]; nra.
Qed.

(** In exact arithmetic, on the physical domain (an angle in [[0, 90)]
    degrees, a nonnegative roughness, an effective permittivity other
    than 1, and not 0 at normal incidence) every step is defined, with
    [root_p] in [(0, 1]] and a nonnegative [vv]. *)
Lemma sigma0_bare_domain (theta : R) (eps_low : C) (f_rms f : R)
    (eps_top eps_eff : C) :
  0 <= theta < 90 -> 0 <= f_rms ->
  Cdiv eps_low eps_top = Some eps_eff ->
  eps_eff <> C1 -> eps_eff <> C0 \/ theta <> 0 ->
  exists gam0 g root_p vv : R,
    gammah eps_eff 0 = Some gam0 /\ 0 < gam0 /\
    g_formula (2 * PI * f_rms) = Some g /\ (f_rms = 0 -> g = 0) /\
    root_p_formula (deg2rad theta) gam0 (2 * PI * f_rms) = Some root_p /\
    0 < root_p <= 1 /\ 0 <= vv /\ (g = 0 -> vv = 0) /\
    sigma0_bare theta eps_low f_rms f eps_top =
      Some (result_dict vv (q_formula gam0 (2 * PI * f_rms) * vv)
                        (root_p * root_p * vv)).
Proof.
  intros Ht Hf Hdiv Hne1 Hne0.
  pose proof PI_RGT_0 as Hpi.
  assert (Hk : 0 <= 2 * PI * f_rms) by nra.
  pose proof (cos_deg2rad_pos theta Ht) as Hc.
  destruct (deg2rad_quadrant theta Ht) as [_ Hb].
  destruct (gammah_0_pos eps_eff Hne1) as (gam0 & H0 & Hg0).
  destruct (gammah_range eps_eff theta Hc) as (gamh & Hh & Hrh).
  assert (Hor : eps_eff <> C0 \/ sin (deg2rad theta) ^ 2 <> 0).
  { destruct Hne0 as [H|H]; [left; exact H|right].
    apply sin_deg2rad_nonzero; assumption. }
  destruct (gammav_range eps_eff theta Hc Hor) as (gamv & Hv & Hrv).
  destruct (g_formula_nonneg _ Hk) as (g & Hg & Hgp & Hgz & _).
  destruct (root_p_unit_interval _ _ _ Hb Hg0 Hk) as (root_p & Hp & Hrp).
  set (ct := cos (deg2rad theta)) in *.
  exists gam0, g, root_p, (g * (ct * (ct * ct)) * (gamv + gamh) / root_p).
  repeat split; try assumption; try lra.
  - intros ->. apply Hgz. ring.
  - apply Rdiv_nonneg; [|lra].
    apply Rmult_le_pos; [|lra]. apply Rmult_le_pos; [exact Hgp|nra].
  - intros ->. unfold Rdiv. ring.
  - rewrite sigma0_bare_unfold, Hdiv. cbn [mbind option_bind].
    rewrite H0. cbn [mbind option_bind].
    rewrite Hh. cbn [mbind option_bind].
    rewrite Hv. cbn [mbind option_bind].
    rewrite Hg. cbn [mbind option_bind].
    rewrite Hp. cbn [mbind option_bind].
    fold ct. rewrite fdiv_nonzero by lra. reflexivity.
Qed.

(** The regression fixture of the specification lies in that domain. *)
Lemma fixture_in_domain :
  0 <= 40 < 90 /\ 0 <= 0.3 /\
  Cdiv (mkC 15 (-3)) C1 = Some (mkC 15 (-3)) /\
  mkC 15 (-3) <> C1 /\ (mkC 15 (-3) <> C0 \/ 40 <> 0).
Proof.
  split; [lra|]. split; [lra|]. split; [apply Cdiv_one|].
  split; [intros E; inversion E; lra|right; lra].
Qed.

(** ** The contract of the Oh model *)

(** C6.  Whenever the call returns, the stored [vh] is [q * vv], with [q]
    of step 8 computed from [gamma0 = gammah eps_eff 0] and
    [k_rms = 2 pi f_rms]: the ratio depends on the inputs through [q]
    alone. *)
Theorem cross_pol_relation (theta : R) (eps_low : C) (f_rms f : R)
    (eps_top : C) (d : gmap string R) :
  sigma0_bare theta eps_low f_rms f eps_top = Some d ->
  exists (eps_eff : C) (gam0 vv vh : R),
    Cdiv eps_low eps_top = Some eps_eff /\
    gammah eps_eff 0 = Some gam0 /\
    d !! "vv" = Some vv /\ d !! "vh" = Some vh /\
    vh = q_formula gam0 (2 * PI * f_rms) * vv.
Proof.
  intros H.
  destruct (sigma0_bare_inv _ _ _ _ _ _ H)
    as (e & gam0 & gamh & gamv & g & rp & vv & He & H0 & _ & _ & _ & _ & _ & ->).
  exists e, gam0, vv, (q_formula gam0 (2 * PI * f_rms) * vv).
  rewrite result_dict_vv, result_dict_vh. auto.
Qed.

Lemma cross_pol_relation_witness :
  exists d : gmap string R,
    sigma0_bare 40 (mkC 15 (-3)) 0.3 5.3e9 C1 = Some d /\
    exists (eps_eff : C) (gam0 vv vh : R),
      Cdiv (mkC 15 (-3)) C1 = Some eps_eff /\
      gammah eps_eff 0 = Some gam0 /\
      d !! "vv" = Some vv /\ d !! "vh" = Some vh /\
      vh = q_formula gam0 (2 * PI * 0.3) * vv.
Proof.
  destruct fixture_in_domain as (Ht & Hf & Hd & H1 & H0).
  destruct (sigma0_bare_domain 40 _ 0.3 5.3e9 _ _ Ht Hf Hd H1 H0)
    as (gam0 & g & rp & vv & _ & _ & _ & _ & _ & _ & _ & _ & Hs).
  eexists. split; [exact Hs|].
  exact (cross_pol_relation _ _ _ _ _ _ Hs).
Defined.

(** C7 (as amended).  Whenever the call returns with every intermediate
    value finite, the result has exactly the keys [vv], [vh], [hh], and
    [hh = root_p^2 * vv] with [root_p] of step 7; hence [hh <= vv]
    whenever [-1 <= root_p <= 1] and [vv] is not negative. *)
Theorem hh_root_p_relation (theta : R) (eps_low : C) (f_rms f : R)
    (eps_top : C) (d : gmap string R) :
  sigma0_bare theta eps_low f_rms f eps_top = Some d ->
  exists (eps_eff : C) (gam0 root_p vv hh : R),
    Cdiv eps_low eps_top = Some eps_eff /\
    gammah eps_eff 0 = Some gam0 /\
    root_p_formula (deg2rad theta) gam0 (2 * PI * f_rms) = Some root_p /\
    dom d = ({["vv"; "vh"; "hh"]} : gset string) /\
    d !! "vv" = Some vv /\ d !! "hh" = Some hh /\
    hh = root_p * root_p * vv /\
    (-1 <= root_p <= 1 -> 0 <= vv -> hh <= vv).
Proof.
  intros H.
  destruct (sigma0_bare_inv _ _ _ _ _ _ H)
    as (e & gam0 & gamh & gamv & g & rp & vv & He & H0 & _ & _ & _ & Hp & _ & ->).
  exists e, gam0, rp, vv, (rp * rp * vv).
  rewrite result_dict_vv, result_dict_hh, result_dict_dom.
  repeat split; try assumption; try reflexivity.
  intros Hr Hv.
  assert (Hsq : 0 <= 1 - rp * rp) by nra.
  pose proof (Rmult_le_pos _ _ Hsq Hv). lra.
Qed.

(** The fixture [surface_backscatter(40.0, complex(15,-3), 0.3, 5.3e9)]
    returns, and there [hh <= vv]. *)
Lemma hh_root_p_relation_witness :
  exists (d : gmap string R) (vv hh : R),
    sigma0_bare 40 (mkC 15 (-3)) 0.3 5.3e9 C1 = Some d /\
    dom d = ({["vv"; "vh"; "hh"]} : gset string) /\
    d !! "vv" = Some vv /\ d !! "hh" = Some hh /\ hh <= vv.
Proof.
  destruct fixture_in_domain as (Ht & Hf & Hd & H1 & H0).
  destruct (sigma0_bare_domain 40 _ 0.3 5.3e9 _ _ Ht Hf Hd H1 H0)
    as (gam0 & g & rp & vv & Hg0 & _ & _ & _ & Hp & Hrp & Hvv & _ & Hs).
  destruct (hh_root_p_relation _ _ _ _ _ _ Hs)
    as (e' & gam0' & rp' & vv' & hh' & He' & Hg0' & Hp' & Hdom & Hv' & Hh' & _ & Hle).
  rewrite Hd in He'. injection He' as <-.
  rewrite Hg0 in Hg0'. injection Hg0' as <-.
  rewrite Hp in Hp'. injection Hp' as <-.
  rewrite result_dict_vv in Hv'. injection Hv' as <-.
  eexists _, vv, hh'. split; [exact Hs|]. split; [exact Hdom|].
  split; [apply result_dict_vv|]. split; [exact Hh'|].
  apply Hle; lra.
Defined.

(** C8.  The frequency argument does not reach any step of the
    computation. *)
Theorem frequency_unused (theta : R) (eps_low : C) (f_rms f1 f2 : R)
    (eps_top : C) :
  sigma0_bare theta eps_low f_rms f1 eps_top =
  sigma0_bare theta eps_low f_rms f2 eps_top.
Proof. reflexivity. Qed.

(** C9.  The two permittivities enter through their quotient only, and
    the call without [eps_top] is the call with [eps_top = 1]. *)
Theorem permittivity_ratio (theta : R) (eps_low : C) (f_rms f : R)
    (eps_top : C) :
  eps_top <> C0 ->
  exists eps_eff : C,
    Cdiv eps_low eps_top = Some eps_eff /\
    sigma0_bare theta eps_low f_rms f eps_top =
      sigma0_bare theta eps_eff f_rms f C1 /\
    sigma0_bare_default theta eps_low f_rms f =
      sigma0_bare theta eps_low f_rms f C1.
Proof.
  intros Ht.
  destruct (Cdiv_nonzero eps_low eps_top Ht) as (e & He & _).
  exists e. split; [exact He|]. split; [|reflexivity].
  unfold sigma0_bare. rewrite He, Cdiv_one. reflexivity.
Qed.

Lemma permittivity_ratio_witness :
  mkC 2 0 <> C0 /\
  exists eps_eff : C,
    Cdiv (mkC 30 (-6)) (mkC 2 0) = Some eps_eff /\
    sigma0_bare 40 (mkC 30 (-6)) 0.3 5.3e9 (mkC 2 0) =
      sigma0_bare 40 eps_eff 0.3 5.3e9 C1 /\
    sigma0_bare_default 40 (mkC 30 (-6)) 0.3 5.3e9 =
      sigma0_bare 40 (mkC 30 (-6)) 0.3 5.3e9 C1.
Proof.
  assert (Ht : mkC 2 0 <> C0) by (intros E; inversion E; lra).
  split; [exact Ht|].
  exact (permittivity_ratio 40 (mkC 30 (-6)) 0.3 5.3e9 (mkC 2 0) Ht).
Defined.

(** *** Outside the physical domain: 180 degrees *)

Lemma gammah_4_0 : gammah (mkC 4 0) 0 = Some (1 / 9).
Proof.
  assert (Hw : neliojuuri (mkC 4 0) 0 = mkC 2 0).
  { unfold neliojuuri. rewrite deg2rad_0, sin_0.
    rewrite Csqrt_real; cbn [Re Im Csub RtoC]; [|lra|lra].
    replace (4 - 0 ^ 2) with 4 by lra. rewrite sqrt_4. reflexivity. }
  assert (Hd : hden (mkC 4 0) 0 = mkC 3 0).
  { unfold hden. rewrite Hw, deg2rad_0, cos_0.
    apply C_ext; cbn [Re Im Cadd RtoC]; lra. }
  assert (Hn : hnum (mkC 4 0) 0 = mkC (-1) 0).
  { unfold hnum. rewrite Hw, deg2rad_0, cos_0.
    apply C_ext; cbn [Re Im Csub RtoC]; lra. }
  rewrite gammah_Some; rewrite Hd, ?Hn.
  - f_equal. unfold Cnorm2; cbn [Re Im]. lra.
  - intros E; inversion E; lra.
Qed.

Lemma fpow_2_3 : fpow 2 3 = Some 8.
Proof.
  unfold fpow.
  destruct (Req_EM_T 3 0) as [E|_]; [lra|].
  destruct (Rlt_dec 0 2) as [_|Hn]; [|lra].
  f_equal. replace 3 with (INR 3) by (simpl; lra).
  rewrite Rpower_pow by lra. lra.
Qed.

Lemma root_p_180 (k : R) :
  root_p_formula (deg2rad 180) (1 / 9) k = Some (1 - 8 * exp (- k)).
Proof.
  unfold root_p_formula. rewrite fdiv_nonzero by lra.
  cbn [mbind option_bind]. rewrite deg2rad_180.
  replace (2 * PI / PI) with 2 by (field; pose proof PI_RGT_0; lra).
  replace (1 / (3 * (1 / 9))) with 3 by lra.
  rewrite fpow_2_3. reflexivity.
Qed.

(** At 180 degrees with a small roughness, [root_p] is below [-1] and [vv]
    is positive, so [hh] exceeds [vv]. *)
Lemma sigma0_bare_180 :
  exists g root_p : R,
    0 < g /\ root_p < -1 /\
    root_p_formula (deg2rad 180) (1 / 9) (2 * PI * 0.01) = Some root_p /\
    sigma0_bare 180 (mkC 4 0) 0.01 5.3e9 C1 =
      Some (result_dict (g * (-1 * (-1 * -1)) * (9 + 9) / root_p)
              (q_formula (1 / 9) (2 * PI * 0.01) *
               (g * (-1 * (-1 * -1)) * (9 + 9) / root_p))
              (root_p * root_p * (g * (-1 * (-1 * -1)) * (9 + 9) / root_p))).
Proof.
  pose proof PI_RGT_0 as Hpi. pose proof PI_4 as Hpi4.
  set (k := 2 * PI * 0.01).
  assert (Hk : 0 < k <= 0.08) by (subst k; lra).
  destruct (g_formula_nonneg k) as (g & Hg & _ & _ & Hgp); [lra|].
  assert (He : 1 + - k < exp (- k)) by (apply exp_ineq1; lra).
  exists g, (1 - 8 * exp (- k)).
  split; [apply Hgp; lra|]. split; [lra|]. split; [apply root_p_180|].
  rewrite sigma0_bare_unfold, Cdiv_one. cbn [mbind option_bind].
  rewrite gammah_4_0. cbn [mbind option_bind].
  rewrite gammah_4_180. cbn [mbind option_bind].
  rewrite gammav_4_180. cbn [mbind option_bind].
  fold k. rewrite Hg. cbn [mbind option_bind].
  rewrite root_p_180. cbn [mbind option_bind].
  rewrite deg2rad_180, cos_PI.
  rewrite fdiv_nonzero by lra. reflexivity.
Qed.

(** C7, as stated, fails at 180 degrees for [eps_low = 4+0j] and
    [f_rms = 0.01]: [root_p <= 1] holds and [hh] is larger than [vv]. *)
Lemma hh_le_vv_fails_180 :
  exists (d : gmap string R) (root_p vv hh : R),
    sigma0_bare 180 (mkC 4 0) 0.01 5.3e9 C1 = Some d /\
    gammah (mkC 4 0) 0 = Some (1 / 9) /\
    root_p_formula (deg2rad 180) (1 / 9) (2 * PI * 0.01) = Some root_p /\
    root_p <= 1 /\
    d !! "vv" = Some vv /\ d !! "hh" = Some hh /\ ~ hh <= vv.
Proof.
  destruct sigma0_bare_180 as (g & rp & Hg & Hrp & Hp & Hs).
  eexists _, rp, _, _. split; [exact Hs|]. split; [apply gammah_4_0|].
  split; [exact Hp|]. split; [lra|].
  split; [apply result_dict_vv|]. split; [apply result_dict_hh|].
  set (vv := g * (-1 * (-1 * -1)) * (9 + 9) / rp).
  assert (Hvv : 0 < vv).
  { subst vv. replace (g * (-1 * (-1 * -1)) * (9 + 9) / rp)
      with (18 * g / (- rp)) by (field; lra).
    apply Rdiv_lt_0_compat; lra. }
  assert (Hsq : 1 < rp * rp) by nra.
  intros Hle. nra.
Qed.

(** The condition [vv >= 0] is needed as well: at 180 degrees with
    [f_rms = 1], [root_p] lies in [(0, 1]] and [vv] is negative, so [hh]
    again exceeds [vv]. *)
Lemma exp_neg_2PI : exp (- (2 * PI * 1)) < 1 / 16.
Proof.
  assert (Hpi : 3 < PI) by (pose proof PI2_3_2; lra).
  assert (Hb : 1 + PI < exp PI) by (apply exp_ineq1; lra).
  pose proof (exp_pos (- PI)) as Ha.
  assert (Hab : exp (- PI) * exp PI = 1).
  { rewrite <- exp_plus. replace (- PI + PI) with 0 by ring. apply exp_0. }
  assert (Hq : exp (- PI) < 1 / 4) by nra.
  replace (- (2 * PI * 1)) with (- PI + - PI) by ring.
  rewrite exp_plus. nra.
Qed.

Lemma hh_le_vv_needs_vv_nonneg :
  exists (d : gmap string R) (root_p vv hh : R),
    sigma0_bare 180 (mkC 4 0) 1 5.3e9 C1 = Some d /\
    root_p_formula (deg2rad 180) (1 / 9) (2 * PI * 1) = Some root_p /\
    0 < root_p <= 1 /\
    d !! "vv" = Some vv /\ d !! "hh" = Some hh /\ ~ hh <= vv.
Proof.
  pose proof PI_RGT_0 as Hpi. pose proof exp_neg_2PI as He.
  pose proof (exp_pos (- (2 * PI * 1))) as Hep.
  set (k := 2 * PI * 1) in *.
  destruct (g_formula_nonneg k) as (g & Hg & _ & _ & Hgp); [subst k; lra|].
  assert (Hg0 : 0 < g) by (apply Hgp; subst k; lra).
  set (rp := 1 - 8 * exp (- k)).
  assert (Hrp : 1 / 2 < rp < 1) by (subst rp; lra).
  set (vv := g * (-1 * (-1 * -1)) * (9 + 9) / rp).
  exists (result_dict vv (q_formula (1 / 9) k * vv) (rp * rp * vv)),
         rp, vv, (rp * rp * vv).
  split.
  { rewrite sigma0_bare_unfold, Cdiv_one. cbn [mbind option_bind].
    rewrite gammah_4_0. cbn [mbind option_bind].
    rewrite gammah_4_180. cbn [mbind option_bind].
    rewrite gammav_4_180. cbn [mbind option_bind].
    fold k. rewrite Hg. cbn [mbind option_bind].
    rewrite root_p_180. cbn [mbind option_bind].
    rewrite deg2rad_180, cos_PI. fold rp.
    rewrite fdiv_nonzero by lra. reflexivity. }
  split; [apply root_p_180|]. split; [lra|].
  split; [apply result_dict_vv|]. split; [apply result_dict_hh|].
  assert (Hvv : vv < 0).
  { subst vv. replace (g * (-1 * (-1 * -1)) * (9 + 9) / rp)
      with (- (18 * g / rp)) by (field; lra).
    assert (0 < 18 * g / rp) by (apply Rdiv_lt_0_compat; lra). lra. }
  assert (Hsq : rp * rp < 1) by nra.
  intros Hle. nra.
Qed.

(** ** Further properties of the reflectivities *)

(** Both reflectivities as quotients of squared moduli. *)
Lemma gammah_norms (eps : C) (theta : R) :
  gammah eps theta = fdiv (Cnorm2 (hnum eps theta)) (Cnorm2 (hden eps theta)).
Proof.
  rewrite gammah_eq_formula. unfold gammah_formula.
  rewrite !Cabs_pow2. reflexivity.
Qed.

Lemma gammav_norms (eps : C) (theta : R) :
  gammav eps theta = fdiv (Cnorm2 (vnum eps theta)) (Cnorm2 (vden eps theta)).
Proof.
  unfold fdiv.
  destruct (Req_EM_T (Cnorm2 (vden eps theta)) 0) as [E|E].
  - apply gammav_None, Cnorm2_zero, E.
  - apply gammav_Some. intros Hd. apply E, Cnorm2_zero, Hd.
Qed.

(** The angle enters a reflectivity through its cosine and squared sine
    only. *)
Lemma reflectivity_angle_ext (eps : C) (theta1 theta2 : R) :
  cos (deg2rad theta1) = cos (deg2rad theta2) ->
  sin (deg2rad theta1) ^ 2 = sin (deg2rad theta2) ^ 2 ->
  gammah eps theta1 = gammah eps theta2 /\
  gammav eps theta1 = gammav eps theta2.
Proof.
  intros Hc Hs.
  rewrite !gammah_norms, !gammav_norms.
  unfold hnum, hden, vnum, vden, neliojuuri. rewrite Hc, Hs. split; reflexivity.
Qed.

(** X1.  The reflectivities are even in the angle: an incidence angle and
    its negative give the same values (and the same faults). *)
Theorem reflectivity_even (eps : C) (theta : R) :
  gammah eps (- theta) = gammah eps theta /\
  gammav eps (- theta) = gammav eps theta.
Proof.
  assert (E : deg2rad (- theta) = - deg2rad theta) by (unfold deg2rad; lra).
  apply reflectivity_angle_ext; rewrite E.
  - apply cos_neg.
  - rewrite sin_neg. ring.
Qed.

(** *** The sign convention of the loss term *)

Lemma Cnorm2_conj (z : C) : Cnorm2 (Cconj z) = Cnorm2 z.
Proof. unfold Cnorm2, Cconj; cbn [Re Im]. ring. Qed.

Lemma Cconj_real (z : C) : Im z = 0 -> Cconj z = z.
Proof. intros H. apply C_ext; unfold Cconj; cbn [Re Im]; lra. Qed.

(** Off the real axis the principal root commutes with conjugation. *)
Lemma Csqrt_conj (z : C) : Im z <> 0 -> Csqrt (Cconj z) = Cconj (Csqrt z).
Proof.
  intros Hi. unfold Csqrt, Cabs. rewrite Cnorm2_conj.
  unfold Cconj; cbn [Re Im]. f_equal.
  destruct (Rlt_dec (- Im z) 0), (Rlt_dec (Im z) 0); lra.
Qed.

Lemma neliojuuri_conj (eps : C) (theta : R) :
  Im eps <> 0 ->
  neliojuuri (Cconj eps) theta = Cconj (neliojuuri eps theta).
Proof.
  intros Hi. unfold neliojuuri.
  rewrite <- Csqrt_conj by (cbn [Im Csub RtoC]; lra).
  f_equal. apply C_ext; unfold Cconj; cbn [Re Im Csub RtoC]; lra.
Qed.

Lemma gamma_conj (eps : C) (theta : R) :
  gammah (Cconj eps) theta = gammah eps theta /\
  gammav (Cconj eps) theta = gammav eps theta.
Proof.
  destruct (Req_dec (Im eps) 0) as [Hi|Hi].
  - rewrite (Cconj_real eps Hi). split; reflexivity.
  - rewrite !gammah_norms, !gammav_norms.
    unfold hnum, hden, vnum, vden. rewrite (neliojuuri_conj eps theta Hi).
    set (w := neliojuuri eps theta).
    unfold Cnorm2, Cconj, Cadd, Csub, Cmul, RtoC; cbn [Re Im].
    split; f_equal; ring.
Qed.

(** X8.  The reflectivities do not depend on the sign convention of the
    imaginary part of the permittivity: [eps] and its conjugate give the
    same values. *)
Theorem reflectivity_conj (eps : C) (theta : R) :
  gammah (Cconj eps) theta = gammah eps theta /\
  gammav (Cconj eps) theta = gammav eps theta.
Proof. apply gamma_conj. Qed.

Lemma Cdiv_conj (z w : C) : Cdiv (Cconj z) (Cconj w) = Cconj <$> Cdiv z w.
Proof.
  unfold Cdiv.
  destruct (C_eq_dec w C0) as [->|Hw].
  - destruct (C_eq_dec (Cconj C0) C0) as [_|Hn]; [reflexivity|].
    exfalso; apply Hn. apply Cconj_real. reflexivity.
  - destruct (C_eq_dec (Cconj w) C0) as [Hc|_].
    + exfalso; apply Hw. apply Cnorm2_zero. rewrite <- Cnorm2_conj, Hc.
      unfold Cnorm2; cbn [Re Im C0]. ring.
    + cbn [fmap option_fmap option_map]. f_equal. rewrite Cnorm2_conj.
      apply C_ext; unfold Cconj; cbn [Re Im]; unfold Rdiv; ring.
Qed.

(** X9.  The Oh model does not depend on that sign convention either:
    conjugating both permittivities leaves the result unchanged, also for
    the default upper medium. *)
Theorem sigma0_bare_conj (theta : R) (eps_low : C) (f_rms f : R)
    (eps_top : C) :
  sigma0_bare theta (Cconj eps_low) f_rms f (Cconj eps_top) =
    sigma0_bare theta eps_low f_rms f eps_top /\
  sigma0_bare_default theta (Cconj eps_low) f_rms f =
    sigma0_bare_default theta eps_low f_rms f.
Proof.
  assert (Hgen : forall et,
    sigma0_bare theta (Cconj eps_low) f_rms f (Cconj et) =
    sigma0_bare theta eps_low f_rms f et).
  { intros et. rewrite !sigma0_bare_unfold, Cdiv_conj.
    destruct (Cdiv eps_low et) as [e|]; [|reflexivity].
    cbn [fmap option_fmap option_map mbind option_bind].
    rewrite (proj1 (gamma_conj e 0)).
    rewrite (proj1 (gamma_conj e theta)).
    rewrite (proj2 (gamma_conj e theta)). reflexivity. }
  split; [apply Hgen|].
  unfold sigma0_bare_default.
  rewrite <- (Cconj_real C1) at 1 by reflexivity. apply Hgen.
Qed.

(** ** Further properties of the Oh model *)

Lemma root_p_normal_incidence (gam0 k : R) :
  0 < gam0 -> root_p_formula (deg2rad 0) gam0 k = Some 1.
Proof.
  intros Hg. unfold root_p_formula. rewrite fdiv_nonzero by lra.
  cbn [mbind option_bind]. rewrite deg2rad_0.
  replace (2 * 0 / PI) with 0 by (unfold Rdiv; ring).
  assert (He : 0 < 1 / (3 * gam0)) by (apply Rdiv_lt_0_compat; lra).
  unfold fpow.
  destruct (Req_EM_T (1 / (3 * gam0)) 0) as [E|_]; [lra|].
  destruct (Rlt_dec 0 0) as [E|_]; [lra|].
  destruct (Req_EM_T 0 0) as [_|E]; [|lra].
  destruct (Rlt_dec 0 (1 / (3 * gam0))) as [_|E]; [|lra].
  cbn [mbind option_bind]. f_equal. ring.
Qed.

(** X12.  At normal incidence the two co-polarised channels coincide:
    for [theta = 0] the base [2 theta / pi] of the power is 0, so
    [root_p] is 1 and, whenever the call returns, the entry [hh] is the
    entry [vv]. *)
Theorem normal_incidence_copol (eps_low : C) (f_rms f : R) (eps_top : C)
    (d : gmap string R) :
  sigma0_bare 0 eps_low f_rms f eps_top = Some d ->
  exists (eps_eff : C) (gam0 vv : R),
    Cdiv eps_low eps_top = Some eps_eff /\
    gammah eps_eff 0 = Some gam0 /\
    root_p_formula (deg2rad 0) gam0 (2 * PI * f_rms) = Some 1 /\
    d !! "vv" = Some vv /\ d !! "hh" = Some vv.
Proof.
  intros H.
  destruct (sigma0_bare_inv _ _ _ _ _ _ H)
    as (e & gam0 & gamh & gamv & g & rp & vv & He & H0 & _ & _ & _ & Hp & _ & ->).
  assert (Hg : 0 < gam0).
  { destruct (Rle_lt_or_eq_dec 0 gam0 (gammah_nonneg _ _ _ H0)) as [Hlt|Heq];
      [exact Hlt|].
    exfalso. subst gam0. unfold root_p_formula, fdiv in Hp.
    destruct (Req_EM_T (3 * 0) 0) as [_|Hn]; [discriminate Hp|lra]. }
  rewrite (root_p_normal_incidence gam0 _ Hg) in Hp. injection Hp as <-.
  exists e, gam0, vv.
  split; [exact He|]. split; [exact H0|].
  split; [apply root_p_normal_incidence, Hg|].
  split; [apply result_dict_vv|].
  rewrite result_dict_hh. f_equal. ring.
Qed.

Lemma normal_incidence_copol_witness :
  exists d : gmap string R,
    sigma0_bare 0 (mkC 15 (-3)) 0.3 5.3e9 C1 = Some d /\
    exists (eps_eff : C) (gam0 vv : R),
      Cdiv (mkC 15 (-3)) C1 = Some eps_eff /\
      gammah eps_eff 0 = Some gam0 /\
      root_p_formula (deg2rad 0) gam0 (2 * PI * 0.3) = Some 1 /\
      d !! "vv" = Some vv /\ d !! "hh" = Some vv.
Proof.
  destruct fixture_in_domain as (_ & Hf & Hd & H1 & _).
  assert (Ht : 0 <= 0 < 90) by lra.
  assert (H0 : mkC 15 (-3) <> C0 \/ 0 <> 0).
  { left. intros E. inversion E. lra. }
  destruct (sigma0_bare_domain 0 _ 0.3 5.3e9 _ _ Ht Hf Hd H1 H0)
    as (gam0 & g & rp & vv & _ & _ & _ & _ & _ & _ & _ & _ & Hs).
  eexists. split; [exact Hs|].
  exact (normal_incidence_copol _ _ _ _ _ Hs).
Defined.
